(** * Prompt helpers of [src/tokenizer.py]

    A shallow embedding of the text helpers of the tokenizer module:
    [TextProcessor.preprocess_text], [create_negative_prompt] and
    [enhance_prompt], then of the other methods of [TextProcessor] that work
    on text and of the code of [simple_interface.py] that prepares and wraps
    the texts drawn on a demo image.

    Python [str] values are modelled by [string]; every [ascii] stands for
    one code point in the range U+0000..U+00FF.  Python dictionaries with
    string keys are modelled by stdpp's [gmap string].  Python calls are
    computations in a small state-and-exception monad [Py], so that "raises
    nothing" and "touches no state" are statements about the embedding. *)

From Stdlib Require Import String Ascii List Bool Arith Lia.
From stdpp Require Import base option list gmap strings.

Local Open Scope string_scope.
Local Open Scope list_scope.

(** ** Outcomes of a Python call *)

(** The only exception the modelled code can construct is the [KeyError]
    of a subscript [d[k]] on a dictionary. *)
Inductive PyExn : Type :=
| KeyError (key : string).

Inductive outcome (A : Type) : Type :=
| Ok (value : A)
| Raise (e : PyExn).

Arguments Ok {A} value.
Arguments Raise {A} e.

(** A computation reads and writes the interpreter state [W] that the rest
    of the process can observe (module globals, standard output, ...). *)
Definition Py (W A : Type) : Type := W -> outcome A * W.

Definition ret {W A : Type} (a : A) : Py W A := fun w => (Ok a, w).

Definition raise {W A : Type} (e : PyExn) : Py W A := fun w => (Raise e, w).

Definition bind {W A B : Type} (m : Py W A) (k : A -> Py W B) : Py W B :=
  fun w =>
    match m w with
    | (Ok a, w') => k a w'
    | (Raise e, w') => (Raise e, w')
    end.

Notation "'call' x <- m ; k" := (bind m (fun x => k))
  (at level 10, x name, m at level 100, k at level 200).

(** ** Dictionaries *)

(** A dictionary display [{k1: v1, ..., kn: vn}]: the items are stored from
    left to right, a later item replacing an earlier one with the same key. *)
Definition dict_literal (items : list (string * string)) : gmap string string :=
  fold_left (fun d kv => <[kv.1 := kv.2]> d) items ∅.

(** [d[k]]: raises [KeyError] when the key is missing. *)
Definition dict_getitem {W : Type} (d : gmap string string) (k : string)
  : Py W string :=
  match d !! k with
  | Some v => ret v
  | None => raise (KeyError k)
  end.

(** [d.get(k, dflt)]: never raises. *)
Definition dict_get (d : gmap string string) (k dflt : string) : string :=
  match d !! k with
  | Some v => v
  | None => dflt
  end.

(** ** String builtins used by [preprocess_text] *)

(** [str.isspace] on one code point below U+0100: the ASCII white space
    TAB, LF, VT, FF, CR, FS, GS, RS, US and SPACE, then NEL (U+0085) and
    NBSP (U+00A0). *)
Definition py_isspace (c : ascii) : bool :=
  let n := nat_of_ascii c in
  (((9 <=? n) && (n <=? 13)) || ((28 <=? n) && (n <=? 32))
   || (n =? 133) || (n =? 160))%nat.

(** [s.lstrip()] *)
Fixpoint lstrip (s : string) : string :=
  match s with
  | EmptyString => EmptyString
  | String c s' => if py_isspace c then lstrip s' else s
  end.

(** [s.rstrip()]: a white-space character is dropped exactly when nothing
    but white space follows it. *)
Fixpoint rstrip (s : string) : string :=
  match s with
  | EmptyString => EmptyString
  | String c s' =>
      match rstrip s' with
      | EmptyString => if py_isspace c then EmptyString else String c EmptyString
      | String d r => String c (String d r)
      end
  end.

(** [s.strip()] *)
Definition strip (s : string) : string := rstrip (lstrip s).

(** The slice from the current position up to the next white space (or the
    end): the rest of the word that starts here. *)
Fixpoint take_word (s : string) : string :=
  match s with
  | EmptyString => EmptyString
  | String c s' => if py_isspace c then EmptyString else String c (take_word s')
  end.

(** [s.split()] scans [s] from left to right.  [in_word] tells whether the
    previous character belongs to a word that was already appended; a word
    is appended as a whole at its first character. *)
Fixpoint split_from (in_word : bool) (s : string) : list string :=
  match s with
  | EmptyString => []
  | String c s' =>
      if py_isspace c then split_from false s'
      else if in_word then split_from true s'
      else String c (take_word s') :: split_from true s'
  end.

Definition split (s : string) : list string := split_from false s.

(** [sep.join(parts)] *)
Definition join (sep : string) (parts : list string) : string :=
  String.concat sep parts.

(** Truth value of a string: [not text] holds for the empty string only. *)
Definition py_not (text : string) : bool :=
  match text with
  | EmptyString => true
  | String _ _ => false
  end.

(** ** The module's functions *)

(** The state of a [TextProcessor] object; the tokenizer is an object of an
    external library. *)
Record TextProcessor (Tok : Type) : Type := {
  model_name : string;
  tokenizer : option Tok
}.

Section Tokenizer.

Context {W : Type}.

(** [TextProcessor.preprocess_text(self, text)] *)
Definition preprocess_text {Tok : Type} (self : TextProcessor Tok)
    (text : string) : Py W string :=
  let text := strip text in
  let text := join " " (split text) in
  let text := if py_not text then "a simple image" else text in
  ret text.

(** The dictionary bound to [negative_prompts] in [create_negative_prompt]. *)
Definition negative_prompts : gmap string string :=
  dict_literal
    [ ("general", "blurry, low quality, distorted, deformed, bad anatomy, bad proportions");
      ("portrait", "blurry, low quality, bad face, deformed face, extra limbs, bad anatomy");
      ("landscape", "blurry, low quality, distorted horizon, bad composition, oversaturated");
      ("object", "blurry, low quality, deformed, bad shape, unrealistic proportions") ].

(** [create_negative_prompt(style)]: the default argument of [get] is the
    subscript [negative_prompts["general"]], evaluated before the call.  A
    caller that omits [style] passes ["general"]. *)
Definition create_negative_prompt (style : string) : Py W string :=
  call dflt <- dict_getitem negative_prompts "general";
  ret (dict_get negative_prompts style dflt).

(** The dictionary bound to [enhancements] in [enhance_prompt]. *)
Definition enhancements : gmap string string :=
  dict_literal
    [ ("realistic", "photorealistic, high quality, detailed, 8k resolution");
      ("artistic", "artistic, beautiful, masterpiece, high quality");
      ("professional", "professional photography, studio lighting, high quality");
      ("cinematic", "cinematic lighting, dramatic, high quality, film photography") ].

(** [enhance_prompt(prompt, style)]; a caller that omits [style] passes
    ["realistic"].  The f-string formats two [str] values, which are
    inserted as they are. *)
Definition enhance_prompt (prompt style : string) : Py W string :=
  call dflt <- dict_getitem enhancements "realistic";
  let enhancement := dict_get enhancements style dflt in
  ret (prompt +:+ ", " +:+ enhancement).

End Tokenizer.

(** ** The object store

    Where the state of the process matters, dictionaries are objects: a
    dictionary display allocates a new object in the store and evaluates to
    a reference to it, and the operations on a dictionary read the object
    behind the reference.  The functions below are the two prompt functions
    again, statement by statement, on such a store. *)

Module Store.

(** The state of the process that calls can observe or change: the
    dictionary objects by address, and what was written to standard
    output. *)
Record World : Type := {
  heap : gmap nat (gmap string string);
  stdout : list string
}.

(** A dictionary display: a new object at an address not in use. *)
Definition new_dict (items : list (string * string)) : Py World nat :=
  fun w =>
    let r := fresh (dom (heap w)) in
    (Ok r, {| heap := <[r := dict_literal items]> (heap w);
              stdout := stdout w |}).

(** The object behind a reference.  A reference that denotes no object
    cannot arise in a run of the program; the model lets such an access
    fail like a missing key. *)
Definition deref (r : nat) (k : string) : Py World (gmap string string) :=
  fun w =>
    match heap w !! r with
    | Some d => (Ok d, w)
    | None => (Raise (KeyError k), w)
    end.

(** [r[k]] *)
Definition getitem (r : nat) (k : string) : Py World string :=
  call d <- deref r k;
  dict_getitem d k.

(** [r.get(k, dflt)] *)
Definition get (r : nat) (k dflt : string) : Py World string :=
  call d <- deref r k;
  ret (dict_get d k dflt).

(** [create_negative_prompt(style)] *)
Definition create_negative_prompt (style : string) : Py World string :=
  call negative_prompts <-
    new_dict
      [ ("general", "blurry, low quality, distorted, deformed, bad anatomy, bad proportions");
        ("portrait", "blurry, low quality, bad face, deformed face, extra limbs, bad anatomy");
        ("landscape", "blurry, low quality, distorted horizon, bad composition, oversaturated");
        ("object", "blurry, low quality, deformed, bad shape, unrealistic proportions") ];
  call dflt <- getitem negative_prompts "general";
  get negative_prompts style dflt.

(** [enhance_prompt(prompt, style)] *)
Definition enhance_prompt (prompt style : string) : Py World string :=
  call enhancements <-
    new_dict
      [ ("realistic", "photorealistic, high quality, detailed, 8k resolution");
        ("artistic", "artistic, beautiful, masterpiece, high quality");
        ("professional", "professional photography, studio lighting, high quality");
        ("cinematic", "cinematic lighting, dramatic, high quality, film photography") ];
  call dflt <- getitem enhancements "realistic";
  call enhancement <- get enhancements style dflt;
  ret (prompt +:+ ", " +:+ enhancement).

(** A client's call of one of the two prompt functions, and a client that
    performs a sequence of such calls, keeping every outcome. *)
Inductive prompt_call : Type :=
| CallEnhance (prompt style : string)
| CallNegative (style : string).

Definition run_call (c : prompt_call) : Py World string :=
  match c with
  | CallEnhance prompt style => enhance_prompt prompt style
  | CallNegative style => create_negative_prompt style
  end.

Fixpoint run_calls (cs : list prompt_call) (w : World)
  : list (outcome string) * World :=
  match cs with
  | [] => ([], w)
  | c :: cs' =>
      let '(o, w1) := run_call c w in
      let '(os, w2) := run_calls cs' w1 in
      (o :: os, w2)
  end.

End Store.

(** The outcome of a call according to the embedding on values. *)
Definition value_of (c : Store.prompt_call) : outcome string :=
  match c with
  | Store.CallEnhance prompt style => (enhance_prompt prompt style tt).1
  | Store.CallNegative style => (create_negative_prompt style tt).1
  end.

(** ** Vocabulary of the specification *)

Definition recognized_styles : list string :=
  ["realistic"; "artistic"; "professional"; "cinematic"].

Definition recognized_categories : list string :=
  ["general"; "portrait"; "landscape"; "object"].

Definition starts_with (pre s : string) : Prop := exists rest, s = pre +:+ rest.

Definition ends_with (suf s : string) : Prop := exists front, s = front +:+ suf.

Definition contains (sub s : string) : Prop :=
  exists front rest, s = front +:+ sub +:+ rest.

(** White-space-only strings (the empty string included). *)
Fixpoint all_space (s : string) : bool :=
  match s with
  | EmptyString => true
  | String c s' => py_isspace c && all_space s'
  end.

Definition starts_space (s : string) : bool :=
  match s with
  | EmptyString => false
  | String c _ => py_isspace c
  end.

Fixpoint ends_space (s : string) : bool :=
  match s with
  | EmptyString => false
  | String c s' =>
      match s' with
      | EmptyString => py_isspace c
      | String _ _ => ends_space s'
      end
  end.

(** The specification's normalisation, in its own words: every run of white
    space becomes a single space.  [in_run] tells whether the previous
    character was white space; the first character of a run is replaced by a
    space and the others are dropped. *)
Fixpoint collapse_from (in_run : bool) (s : string) : string :=
  match s with
  | EmptyString => EmptyString
  | String c s' =>
      if py_isspace c
      then if in_run then collapse_from true s'
           else String " " (collapse_from true s')
      else String c (collapse_from false s')
  end.

Definition collapse_whitespace (s : string) : string := collapse_from false s.

(** No two adjacent white-space characters. *)
Fixpoint no_run (s : string) : bool :=
  match s with
  | EmptyString => true
  | String c s' => negb (py_isspace c && starts_space s') && no_run s'
  end.

(** The characters of a string that are not white space, in order. *)
Fixpoint ink (s : string) : list ascii :=
  match s with
  | EmptyString => []
  | String c s' => if py_isspace c then ink s' else c :: ink s'
  end.

(** What [join " "] puts after the first word. *)
Definition tail_words (ws : list string) : string :=
  match ws with
  | [] => ""
  | _ :: _ => " " +:+ join " " ws
  end.

(** ** Vocabulary of the further properties *)

(** The normal form of a prompt: not empty, no white space other than
    single spaces, and every space between two other characters.
    [after_space] tells whether the string starts here or the previous
    character was a space. *)
Fixpoint tidy (after_space : bool) (s : string) : bool :=
  match s with
  | EmptyString => negb after_space
  | String c s' =>
      if py_isspace c
      then Ascii.eqb c " " && negb after_space && tidy true s'
      else tidy false s'
  end.

Definition normalized (s : string) : bool := tidy true s.

(** A word as [split] produces them: not empty and free of white space. *)
Fixpoint spaceless (s : string) : bool :=
  match s with
  | EmptyString => true
  | String c s' => negb (py_isspace c) && spaceless s'
  end.

Definition is_word (s : string) : bool := negb (py_not s) && spaceless s.

(** ** Further methods of [TextProcessor] *)

(** Values stored in the configuration dictionaries of [config.py]. *)
Inductive PyVal : Type :=
| VInt (n : Z)
| VStr (s : string)
| VBool (b : bool).

(** A dictionary display with values of any type. *)
Definition dict_display {V : Type} (items : list (string * V)) : gmap string V :=
  fold_left (fun d kv => <[kv.1 := kv.2]> d) items ∅.

(** [TOKENIZER_CONFIG] of [config.py]. *)
Definition TOKENIZER_CONFIG : gmap string PyVal :=
  dict_display
    [ ("max_length", VInt 77);
      ("padding", VStr "max_length");
      ("truncation", VBool true);
      ("return_tensors", VStr "pt") ].

(** The [text] argument of [tokenize_text]: one prompt or a list of them. *)
Inductive text_arg : Type :=
| TextStr (s : string)
| TextList (l : list string).

Section Methods.

Context {W Tok Enc Ids : Type}.

(** The call [self.tokenizer(text, max_length=.., padding=.., truncation=..,
    return_tensors=..)] of the external tokenizer object, and the subscript
    on the encoding it returns.  What they raise propagates. *)
Variable tokenizer_call :
  option Tok -> text_arg -> PyVal -> PyVal -> PyVal -> string -> Py W Enc.
Variable encoding_getitem : Enc -> string -> Py W Ids.

Definition config_getitem (d : gmap string PyVal) (k : string) : Py W PyVal :=
  match d !! k with
  | Some v => ret v
  | None => raise (KeyError k)
  end.

(** A list comprehension [[f(t) for t in l]]. *)
Fixpoint map_py {A B : Type} (f : A -> Py W B) (l : list A) : Py W (list B) :=
  match l with
  | [] => ret []
  | a :: l' =>
      call b <- f a;
      call bs <- map_py f l';
      ret (b :: bs)
  end.

(** [TextProcessor.tokenize_text(self, text, return_tensors)]; a caller that
    omits [return_tensors] passes ["pt"]. *)
Definition tokenize_text (self : TextProcessor Tok) (text : text_arg)
    (return_tensors : string) : Py W Enc :=
  call text <-
    match text with
    | TextStr s => call r <- preprocess_text self s; ret (TextStr r)
    | TextList l => call rs <- map_py (preprocess_text self) l; ret (TextList rs)
    end;
  call max_length <- config_getitem TOKENIZER_CONFIG "max_length";
  call padding <- config_getitem TOKENIZER_CONFIG "padding";
  call truncation <- config_getitem TOKENIZER_CONFIG "truncation";
  tokenizer_call (tokenizer Tok self) text max_length padding truncation
    return_tensors.

(** [TextProcessor.encode_prompt(self, prompt)] *)
Definition encode_prompt (self : TextProcessor Tok) (prompt : string)
  : Py W Ids :=
  call tokens <- tokenize_text self (TextStr prompt) "pt";
  encoding_getitem tokens "input_ids".

End Methods.

Section Variations.

Context {W Tok : Type}.

(** [TextProcessor.create_prompt_variations(self, base_prompt, variations)];
    [variations] is [None] when the caller omits it.  The loop appends one
    string to [prompt_variations] per element of [variations]. *)
Definition create_prompt_variations (self : TextProcessor Tok)
    (base_prompt : string) (variations : option (list string))
  : Py W (list string) :=
  let variations :=
    match variations with
    | None =>
        [ "high quality, detailed";
          "photorealistic, 8k resolution";
          "artistic, beautiful";
          "professional photography";
          "masterpiece, best quality" ]
    | Some given => given
    end in
  let prompt_variations := [base_prompt] in
  ret (fold_left
         (fun prompt_variations variation =>
            prompt_variations ++ [base_prompt +:+ ", " +:+ variation])
         variations prompt_variations).

End Variations.

(** [c.lower()] on one code point below U+0100: the letters A-Z and the
    Latin-1 capitals U+00C0..U+00DE, the sign U+00D7 excepted, move up by
    32. *)
Definition py_lower_char (c : ascii) : ascii :=
  let n := nat_of_ascii c in
  if (((65 <=? n) && (n <=? 90))
      || ((192 <=? n) && (n <=? 222) && negb (n =? 215)))%nat
  then ascii_of_nat (n + 32)
  else c.

(** [s.lower()] *)
Fixpoint lower (s : string) : string :=
  match s with
  | EmptyString => EmptyString
  | String c s' => String (py_lower_char c) (lower s')
  end.

(** The set display bound to [common_words] in [extract_keywords]. *)
Definition common_words : gset string :=
  list_to_set
    [ "the"; "a"; "an"; "and"; "or"; "but"; "in"; "on"; "at"; "to"; "for";
      "of"; "with"; "by"; "is"; "are"; "was"; "were"; "be"; "been"; "being" ].

(** The list [keywords] of [extract_keywords], before duplicates are
    removed. *)
Definition keywords_of (text : string) : list string :=
  let words := split (lower text) in
  filter (fun word => (word ∉ common_words) /\ (2 < String.length word)%nat)
    words.

(** [list(set(l))]: the distinct elements of [l].  The order in which a set
    of strings is enumerated is not fixed by the language (it changes with
    the hash seed of the process), so the result is given as a relation. *)
Definition list_of_set (l r : list string) : Prop :=
  NoDup r /\ forall x, x ∈ r <-> x ∈ l.

(** [TextProcessor.extract_keywords(self, text)] may return [r]. *)
Definition extract_keywords {Tok : Type} (self : TextProcessor Tok)
    (text : string) (r : list string) : Prop :=
  list_of_set (keywords_of text) r.

(** Truth value of a string in a condition. *)
Definition py_truth (s : string) : bool := negb (py_not s).

(** The loop that wraps a list of words into lines in
    [generate_demo_image] of [simple_interface.py]: one step per word on
    the pair of [lines] and [current_line].  A character is taken to be
    [char_width] pixels wide (10 for the prompt, 8 for the enhanced
    prompt). *)
Definition wrap_step (char_width max_width : nat)
    (state : list string * string) (word : string) : list string * string :=
  let '(lines, current_line) := state in
  let test_line :=
    current_line +:+ (if py_truth current_line then " " else "") +:+ word in
  if (String.length test_line * char_width <? max_width)%nat
  then (lines, test_line)
  else ((if py_truth current_line then lines ++ [current_line] else lines),
        word).

(** What is left in [current_line] after the loop is appended. *)
Definition wrap_flush (state : list string * string) : list string :=
  let '(lines, current_line) := state in
  if py_truth current_line then lines ++ [current_line] else lines.

Definition wrap_words (char_width max_width : nat) (words : list string)
  : list string :=
  wrap_flush (fold_left (wrap_step char_width max_width) words ([], "")).

(** The lines computed for a text: [words = text.split()], then the loop. *)
Definition wrap_text (char_width max_width : nat) (text : string)
  : list string :=
  wrap_words char_width max_width (split text).

(** What the wrapping loop keeps true, with [seen] the words consumed so
    far and [all] the words of the whole text: no line is empty, the lines
    joined by spaces are the words seen joined by spaces, there are no more
    lines than words, and a line that does not fit is a single word. *)
Definition wrap_invariant (char_width max_width : nat)
    (all seen : list string) (state : list string * string) : Prop :=
  Forall (fun line => py_truth line = true) (wrap_flush state) /\
  join " " (wrap_flush state) = join " " seen /\
  length (wrap_flush state) <= length seen /\
  Forall (fun line =>
            String.length line * char_width < max_width \/ In line all)
         (wrap_flush state) /\
  Forall (fun word => py_truth word = true) seen.

Section DemoTexts.

Context {W : Type}.

(** [try: body except: handler]: a bare [except] catches every exception. *)
Definition try_except {A : Type} (body handler : Py W A) : Py W A :=
  fun w =>
    match body w with
    | (Ok a, w') => (Ok a, w')
    | (Raise _, w') => handler w'
    end.

(** The texts [enhanced] and [negative] that [generate_demo_image] of
    [simple_interface.py] computes for each image.  The module global
    [text_processing_available] tells whether the tokenizer module could be
    imported. *)
Definition demo_texts (text_processing_available : bool)
    (prompt style : string) : Py W (string * string) :=
  if text_processing_available
  then
    try_except
      (call enhanced <- enhance_prompt prompt style;
       call negative <- create_negative_prompt "general";
       ret (enhanced, negative))
      (ret (prompt +:+ ", " +:+ style +:+ ", high quality",
            "low quality, blurry"))
  else
    ret (prompt +:+ ", " +:+ style +:+ ", high quality", "low quality, blurry").

End DemoTexts.

(** ** The two tables *)

Lemma enhancements_lookup (style : string) :
  enhancements !! style =
    if decide ("cinematic" = style)
    then Some "cinematic lighting, dramatic, high quality, film photography"
    else if decide ("professional" = style)
    then Some "professional photography, studio lighting, high quality"
    else if decide ("artistic" = style)
    then Some "artistic, beautiful, masterpiece, high quality"
    else if decide ("realistic" = style)
    then Some "photorealistic, high quality, detailed, 8k resolution"
    else None.
Proof.
  unfold enhancements, dict_literal; simpl.
  rewrite !lookup_insert, lookup_empty. reflexivity.
Qed.

Lemma negative_prompts_lookup (style : string) :
  negative_prompts !! style =
    if decide ("object" = style)
    then Some "blurry, low quality, deformed, bad shape, unrealistic proportions"
    else if decide ("landscape" = style)
    then Some "blurry, low quality, distorted horizon, bad composition, oversaturated"
    else if decide ("portrait" = style)
    then Some "blurry, low quality, bad face, deformed face, extra limbs, bad anatomy"
    else if decide ("general" = style)
    then Some "blurry, low quality, distorted, deformed, bad anatomy, bad proportions"
    else None.
Proof.
  unfold negative_prompts, dict_literal; simpl.
  rewrite !lookup_insert, lookup_empty. reflexivity.
Qed.

Lemma enhancements_unknown (style : string) :
  ~ In style recognized_styles -> enhancements !! style = None.
Proof.
  intros Hnot. rewrite enhancements_lookup.
  repeat case_decide; try reflexivity; subst; exfalso; apply Hnot; simpl; tauto.
Qed.

Lemma negative_prompts_unknown (style : string) :
  ~ In style recognized_categories -> negative_prompts !! style = None.
Proof.
  intros Hnot. rewrite negative_prompts_lookup.
  repeat case_decide; try reflexivity; subst; exfalso; apply Hnot; simpl; tauto.
Qed.

Lemma enhancements_known (style : string) :
  In style recognized_styles -> is_Some (enhancements !! style).
Proof.
  simpl. intros [<- | [<- | [<- | [<- | []]]]]; vm_compute; eauto.
Qed.

Lemma negative_prompts_known (style : string) :
  In style recognized_categories -> is_Some (negative_prompts !! style).
Proof.
  simpl. intros [<- | [<- | [<- | [<- | []]]]]; vm_compute; eauto.
Qed.

Section Prompts.

Context {W : Type}.

(** Both functions are a table lookup with a default; neither raises nor
    touches the state. *)
Lemma enhance_prompt_eq (prompt style : string) (w : W) :
  enhance_prompt prompt style w =
    (Ok (prompt +:+ ", " +:+
         dict_get enhancements style
           "photorealistic, high quality, detailed, 8k resolution"), w).
Proof. reflexivity. Qed.

Lemma create_negative_prompt_eq (style : string) (w : W) :
  create_negative_prompt style w =
    (Ok (dict_get negative_prompts style
           "blurry, low quality, distorted, deformed, bad anatomy, bad proportions"), w).
Proof. reflexivity. Qed.

End Prompts.

(** ** Strings *)

Lemma append_nil (b : string) : "" +:+ b = b.
Proof. reflexivity. Qed.

Lemma append_cons (x : ascii) (a b : string) :
  String x a +:+ b = String x (a +:+ b).
Proof. reflexivity. Qed.

Lemma append_assoc (a b c : string) : (a +:+ b) +:+ c = a +:+ b +:+ c.
Proof.
  induction a as [|x a IH]; [reflexivity|].
  rewrite !append_cons. f_equal. exact IH.
Qed.

Lemma append_empty_r (a : string) : a +:+ "" = a.
Proof.
  induction a as [|x a IH]; [reflexivity|].
  rewrite append_cons. f_equal. exact IH.
Qed.

Lemma contains_append_r (sub a b : string) :
  contains sub b -> contains sub (a +:+ b).
Proof.
  intros (front & rest & ->). exists (a +:+ front), rest.
  now rewrite append_assoc.
Qed.

(** Every value the enhancement lookup can produce, default included. *)
Lemma enhancement_cases (style : string) :
  In (dict_get enhancements style
        "photorealistic, high quality, detailed, 8k resolution")
     [ "cinematic lighting, dramatic, high quality, film photography";
       "professional photography, studio lighting, high quality";
       "artistic, beautiful, masterpiece, high quality";
       "photorealistic, high quality, detailed, 8k resolution" ].
Proof.
  unfold dict_get. rewrite enhancements_lookup.
  repeat case_decide; simpl; tauto.
Qed.

Lemma negative_cases (style : string) :
  In (dict_get negative_prompts style
        "blurry, low quality, distorted, deformed, bad anatomy, bad proportions")
     [ "blurry, low quality, deformed, bad shape, unrealistic proportions";
       "blurry, low quality, distorted horizon, bad composition, oversaturated";
       "blurry, low quality, bad face, deformed face, extra limbs, bad anatomy";
       "blurry, low quality, distorted, deformed, bad anatomy, bad proportions" ].
Proof.
  unfold dict_get. rewrite negative_prompts_lookup.
  repeat case_decide; simpl; tauto.
Qed.

Section PromptClaims.

Context {W : Type}.

(** C1. For a recognized style, [enhance_prompt p style] returns the prompt,
    then the separator [", "], then the suffix that the enhancement table
    registers for the style; the result starts with the prompt and ends with
    that suffix.  The entry of [realistic] is the one the specification
    quotes. *)
Theorem enhance_prompt_recognized (p style : string) (w : W) :
  In style recognized_styles ->
  (exists suffix,
      enhancements !! style = Some suffix /\
      enhance_prompt p style w = (Ok (p +:+ ", " +:+ suffix), w) /\
      starts_with (p +:+ ", ") (p +:+ ", " +:+ suffix) /\
      starts_with p (p +:+ ", " +:+ suffix) /\
      ends_with suffix (p +:+ ", " +:+ suffix)) /\
  enhancements !! "realistic"
    = Some "photorealistic, high quality, detailed, 8k resolution" /\
  enhance_prompt p "realistic" w
    = (Ok (p +:+ ", photorealistic, high quality, detailed, 8k resolution"), w).
Proof.
  intros Hin. split; [|split; reflexivity].
  destruct (enhancements_known style Hin) as [suffix Hs].
  exists suffix. split; [exact Hs|]. split.
  - rewrite enhance_prompt_eq. unfold dict_get. now rewrite Hs.
  - split; [|split].
    + exists suffix. now rewrite append_assoc.
    + now exists (", " +:+ suffix).
    + exists (p +:+ ", "). now rewrite append_assoc.
Qed.

(** C2. A style outside the recognized set is treated as [realistic]. *)
Theorem enhance_prompt_unknown_style (p style : string) (w : W) :
  ~ In style recognized_styles ->
  enhance_prompt p style w = enhance_prompt p "realistic" w.
Proof.
  intros Hnot. rewrite !enhance_prompt_eq. unfold dict_get.
  now rewrite (enhancements_unknown style Hnot).
Qed.

(** C3. For a recognized category, [create_negative_prompt] returns the
    entry of the negative table for it; for [portrait] this is the string the
    specification quotes. *)
Theorem create_negative_prompt_recognized (category : string) (w : W) :
  In category recognized_categories ->
  (exists entry,
      negative_prompts !! category = Some entry /\
      create_negative_prompt category w = (Ok entry, w)) /\
  create_negative_prompt "portrait" w
    = (Ok "blurry, low quality, bad face, deformed face, extra limbs, bad anatomy", w).
Proof.
  intros Hin. split; [|reflexivity].
  destruct (negative_prompts_known category Hin) as [entry He].
  exists entry. split; [exact He|].
  rewrite create_negative_prompt_eq. unfold dict_get. now rewrite He.
Qed.

(** C4. A category outside the recognized set yields the [general] entry, as
    a normal return value. *)
Theorem create_negative_prompt_unknown (category : string) (w : W) :
  ~ In category recognized_categories ->
  create_negative_prompt category w = create_negative_prompt "general" w /\
  create_negative_prompt category w
    = (Ok "blurry, low quality, distorted, deformed, bad anatomy, bad proportions", w).
Proof.
  intros Hnot. rewrite !create_negative_prompt_eq. unfold dict_get.
  rewrite (negative_prompts_unknown category Hnot). split; reflexivity.
Qed.

(** C5. Both functions are total: on every string argument they return a
    string, raise nothing and leave the state as it was. *)
Theorem prompt_functions_total (p style : string) (w : W) :
  (exists r, enhance_prompt p style w = (Ok r, w)) /\
  (exists r, create_negative_prompt style w = (Ok r, w)).
Proof.
  split; eexists; [apply enhance_prompt_eq | apply create_negative_prompt_eq].
Qed.

(** C6. [enhance_prompt] keeps the prompt verbatim: for every style there is
    one suffix such that every prompt [p] is mapped to [p], [", "] and that
    suffix; the empty prompt with [realistic] gives a string that begins
    with [", "]. *)
Theorem enhance_prompt_verbatim (style : string) :
  (exists suffix, forall (p : string) (w : W),
      enhance_prompt p style w = (Ok (p +:+ ", " +:+ suffix), w) /\
      starts_with p (p +:+ ", " +:+ suffix)) /\
  (forall w : W,
      enhance_prompt "" "realistic" w
        = (Ok ", photorealistic, high quality, detailed, 8k resolution", w)) /\
  (forall w : W,
      enhance_prompt "  A Cat  " "realistic" w
        = (Ok "  A Cat  , photorealistic, high quality, detailed, 8k resolution", w)) /\
  starts_with ", " ", photorealistic, high quality, detailed, 8k resolution".
Proof.
  split; [|split; [|split]].
  - eexists. intros p w. split; [apply enhance_prompt_eq|].
    now eexists.
  - reflexivity.
  - reflexivity.
  - now eexists.
Qed.

(** C8. The scenario of the specification. *)
Theorem enhance_prompt_cute_dog (w : W) :
  enhance_prompt "a cute dog" "cinematic" w
  = (Ok "a cute dog, cinematic lighting, dramatic, high quality, film photography", w).
Proof. reflexivity. Qed.

(** C9. Whatever the style, the enhanced prompt contains ["high quality"],
    and the negative prompt begins with ["blurry, low quality"]. *)
Theorem table_invariants (p style : string) (w : W) :
  (exists r, enhance_prompt p style w = (Ok r, w) /\ contains "high quality" r) /\
  (exists r, create_negative_prompt style w = (Ok r, w) /\
             starts_with "blurry, low quality" r).
Proof.
  split; eexists;
    (split; [first [apply enhance_prompt_eq | apply create_negative_prompt_eq]|]).
  - apply contains_append_r, contains_append_r.
    destruct (enhancement_cases style) as [<- | [<- | [<- | [<- | []]]]].
    + exists "cinematic lighting, dramatic, ", ", film photography". reflexivity.
    + exists "professional photography, studio lighting, ", "". reflexivity.
    + exists "artistic, beautiful, masterpiece, ", "". reflexivity.
    + exists "photorealistic, ", ", detailed, 8k resolution". reflexivity.
  - destruct (negative_cases style) as [<- | [<- | [<- | [<- | []]]]];
      eexists; reflexivity.
Qed.

End PromptClaims.

(** ** Calls on the object store *)

Lemma bind_ok {W A B : Type} (m : Py W A) (k : A -> Py W B) (a : A) (w w' : W) :
  m w = (Ok a, w') -> bind m k w = k a w'.
Proof. intros H. unfold bind. now rewrite H. Qed.

Lemma store_getitem_run (r : nat) (k v : string) (d : gmap string string)
    (w : Store.World) :
  Store.heap w !! r = Some d -> d !! k = Some v ->
  Store.getitem r k w = (Ok v, w).
Proof.
  intros Hr Hk. unfold Store.getitem, Store.deref, bind, dict_getitem.
  now rewrite Hr, Hk.
Qed.

Lemma store_get_run (r : nat) (k dflt : string) (d : gmap string string)
    (w : Store.World) :
  Store.heap w !! r = Some d ->
  Store.get r k dflt w = (Ok (dict_get d k dflt), w).
Proof. intros Hr. unfold Store.get, Store.deref, bind. now rewrite Hr. Qed.

(** A call allocates its table at a fresh address, reads it, and returns
    what the embedding on values returns. *)
Lemma store_enhance_prompt_run (prompt style : string) (w : Store.World) :
  Store.enhance_prompt prompt style w =
    ((enhance_prompt prompt style tt).1,
     {| Store.heap :=
          <[fresh (dom (Store.heap w)) := enhancements]> (Store.heap w);
        Store.stdout := Store.stdout w |}).
Proof.
  unfold Store.enhance_prompt.
  erewrite bind_ok by reflexivity.
  erewrite bind_ok
    by (eapply store_getitem_run; [apply lookup_insert_eq | reflexivity]).
  erewrite bind_ok by (eapply store_get_run; apply lookup_insert_eq).
  reflexivity.
Qed.

Lemma store_create_negative_prompt_run (style : string) (w : Store.World) :
  Store.create_negative_prompt style w =
    ((create_negative_prompt style tt).1,
     {| Store.heap :=
          <[fresh (dom (Store.heap w)) := negative_prompts]> (Store.heap w);
        Store.stdout := Store.stdout w |}).
Proof.
  unfold Store.create_negative_prompt.
  erewrite bind_ok by reflexivity.
  erewrite bind_ok
    by (eapply store_getitem_run; [apply lookup_insert_eq | reflexivity]).
  erewrite store_get_run by apply lookup_insert_eq.
  reflexivity.
Qed.

Lemma heap_alloc_subseteq (h : gmap nat (gmap string string))
    (d : gmap string string) :
  h ⊆ <[fresh (dom h) := d]> h.
Proof. apply insert_subseteq, not_elem_of_dom, is_fresh. Qed.

Lemma store_run_call (c : Store.prompt_call) (w : Store.World) :
  (Store.run_call c w).1 = value_of c /\
  Store.heap w ⊆ Store.heap (Store.run_call c w).2 /\
  Store.stdout (Store.run_call c w).2 = Store.stdout w.
Proof.
  destruct c as [prompt style | style]; simpl Store.run_call.
  - rewrite store_enhance_prompt_run. simpl.
    split; [reflexivity|]. split; [apply heap_alloc_subseteq | reflexivity].
  - rewrite store_create_negative_prompt_run. simpl.
    split; [reflexivity|]. split; [apply heap_alloc_subseteq | reflexivity].
Qed.

Lemma store_run_calls (cs : list Store.prompt_call) (w : Store.World) :
  Store.heap w ⊆ Store.heap (Store.run_calls cs w).2 /\
  Store.stdout (Store.run_calls cs w).2 = Store.stdout w.
Proof.
  revert w. induction cs as [|c cs IH]; intros w; [now split|].
  simpl. destruct (store_run_call c w) as (_ & Hheap & Hout).
  destruct (Store.run_call c w) as [o w1]. simpl in Hheap, Hout.
  destruct (IH w1) as [Hheap1 Hout1].
  destruct (Store.run_calls cs w1) as [os w2]. simpl in *.
  split; [now transitivity (Store.heap w1) | congruence].
Qed.

Lemma value_of_ok (c : Store.prompt_call) : exists r, value_of c = Ok r.
Proof. destruct c; simpl; eexists; reflexivity. Qed.

(** C7. On the object store, a call returns a string that depends on its
    arguments only: after any sequence of earlier calls, from any state of
    the store, the same call gives the same string, the one of the
    embedding on values.  Neither the earlier calls nor the call change an
    object that exists already, the tables of earlier calls included, and
    nothing is written to standard output: a call only adds the table it
    builds, at an address that was not in use. *)
Theorem prompt_calls_deterministic
    (c : Store.prompt_call) (earlier1 earlier2 : list Store.prompt_call)
    (w1 w2 : Store.World) :
  (exists r,
      (Store.run_call c (Store.run_calls earlier1 w1).2).1 = Ok r /\
      (Store.run_call c (Store.run_calls earlier2 w2).2).1 = Ok r /\
      value_of c = Ok r) /\
  Store.heap w1 ⊆ Store.heap (Store.run_calls earlier1 w1).2 /\
  Store.heap (Store.run_calls earlier1 w1).2
    ⊆ Store.heap (Store.run_call c (Store.run_calls earlier1 w1).2).2 /\
  Store.stdout (Store.run_call c (Store.run_calls earlier1 w1).2).2
    = Store.stdout w1.
Proof.
  destruct (value_of_ok c) as [r Hr].
  destruct (store_run_calls earlier1 w1) as [Hheap1 Hout1].
  destruct (store_run_call c (Store.run_calls earlier1 w1).2)
    as (Hv1 & Hheap & Hout).
  destruct (store_run_call c (Store.run_calls earlier2 w2).2) as (Hv2 & _).
  split; [exists r; now rewrite Hv1, Hv2|].
  split; [exact Hheap1|]. split; [exact Hheap | congruence].
Qed.

(** ** Stripping and splitting *)

Lemma lstrip_decompose (s : string) :
  exists lead, s = lead +:+ lstrip s /\ all_space lead = true.
Proof.
  induction s as [|c s (lead & Hs & Hl)]; [now exists ""|].
  simpl. destruct (py_isspace c) eqn:Hc.
  - exists (String c lead). rewrite append_cons, <- Hs. simpl.
    now rewrite Hc, Hl.
  - now exists "".
Qed.

Lemma lstrip_starts (s : string) : starts_space (lstrip s) = false.
Proof.
  induction s as [|c s IH]; [reflexivity|].
  simpl. destruct (py_isspace c) eqn:Hc; [exact IH | simpl; exact Hc].
Qed.

Lemma lstrip_empty (s : string) : lstrip s = "" <-> all_space s = true.
Proof.
  induction s as [|c s IH]; [now split|].
  simpl. destruct (py_isspace c); simpl; [exact IH | now split].
Qed.

Lemma rstrip_empty (s : string) : rstrip s = "" <-> all_space s = true.
Proof.
  induction s as [|c s IH]; [now split|].
  simpl. destruct (rstrip s) as [|d r].
  - destruct IH as [IH _]. rewrite (IH eq_refl), andb_true_r.
    destruct (py_isspace c); now split.
  - destruct IH as [_ IH]. split; [discriminate|].
    intros [_ Hs]%andb_true_iff. now specialize (IH Hs).
Qed.

Lemma rstrip_decompose (s : string) :
  exists trail, s = rstrip s +:+ trail /\ all_space trail = true.
Proof.
  induction s as [|c s (trail & Hs & Ht)]; [now exists ""|].
  simpl. destruct (rstrip s) as [|d r] eqn:Hr.
  - destruct (py_isspace c) eqn:Hc.
    + exists (String c s). split; [reflexivity|]. simpl.
      rewrite Hc. now apply rstrip_empty.
    + exists trail. now rewrite !append_cons, <- Hs.
  - exists trail. now rewrite append_cons, <- Hs.
Qed.

Lemma rstrip_ends (s : string) : ends_space (rstrip s) = false.
Proof.
  induction s as [|c s IH]; [reflexivity|].
  simpl. destruct (rstrip s) as [|d r].
  - destruct (py_isspace c) eqn:Hc; [reflexivity | simpl; exact Hc].
  - exact IH.
Qed.

Lemma rstrip_starts (s : string) :
  starts_space s = false -> starts_space (rstrip s) = false.
Proof.
  destruct s as [|c s]; [reflexivity|].
  simpl. intros Hc. destruct (rstrip s); [now rewrite Hc | exact Hc].
Qed.

Lemma all_space_append (a b : string) :
  all_space (a +:+ b) = all_space a && all_space b.
Proof.
  induction a as [|c a IH]; [reflexivity|].
  rewrite append_cons. simpl. now rewrite IH, andb_assoc.
Qed.

Lemma strip_empty (s : string) : strip s = "" <-> all_space s = true.
Proof.
  unfold strip. rewrite rstrip_empty.
  destruct (lstrip_decompose s) as (lead & Hs & Hl).
  rewrite Hs at 2. rewrite all_space_append, Hl. reflexivity.
Qed.

(** [strip] removes a white-space prefix and a white-space suffix, and what
    is left neither starts nor ends with white space. *)
Lemma strip_decompose (s : string) :
  exists lead trail,
    s = lead +:+ strip s +:+ trail /\
    all_space lead = true /\ all_space trail = true /\
    starts_space (strip s) = false /\ ends_space (strip s) = false.
Proof.
  destruct (lstrip_decompose s) as (lead & Hs & Hl).
  destruct (rstrip_decompose (lstrip s)) as (trail & Hr & Ht).
  exists lead, trail. unfold strip. rewrite <- Hr, <- Hs.
  repeat split; try assumption.
  - apply rstrip_starts, lstrip_starts.
  - apply rstrip_ends.
Qed.

Lemma join_cons (w : string) (ws : list string) :
  join " " (w :: ws) = w +:+ tail_words ws.
Proof.
  destruct ws as [|v ws]; [|reflexivity].
  simpl. now rewrite append_empty_r.
Qed.

Lemma ends_space_tail (c : ascii) (s : string) :
  ends_space (String c s) = false -> ends_space s = false.
Proof. destruct s; [reflexivity | intros H; exact H]. Qed.

(** Joining the words of a string without trailing white space gives the
    string with its runs collapsed: [collapse_from false] when the scan is
    inside a word, [collapse_from true] after white space. *)
Lemma collapse_split (s : string) :
  ends_space s = false ->
  collapse_from false s = take_word s +:+ tail_words (split_from true s) /\
  (s <> "" ->
   String " " (collapse_from true s) = tail_words (split_from false s)).
Proof.
  induction s as [|c s IH]; intros Hend; [now split|].
  pose proof (ends_space_tail c s Hend) as Hs.
  destruct (IH Hs) as [IHword IHrun]. clear IH.
  simpl. destruct (py_isspace c) eqn:Hc.
  - assert (Hne : s <> "").
    { intros ->. simpl in Hend. congruence. }
    rewrite append_nil. split; intros; now apply IHrun.
  - rewrite append_cons, IHword. split; [reflexivity|].
    intros _. unfold tail_words at 2. now rewrite join_cons, append_cons.
Qed.

Lemma join_split_collapse (s : string) :
  starts_space s = false -> ends_space s = false ->
  join " " (split s) = collapse_whitespace s.
Proof.
  intros Hstart Hend. unfold collapse_whitespace.
  rewrite (proj1 (collapse_split s Hend)).
  destruct s as [|c s]; [reflexivity|].
  simpl in Hstart. unfold split. simpl. rewrite Hstart.
  apply join_cons.
Qed.

Lemma collapse_from_empty (b : bool) (s : string) :
  starts_space s = false -> collapse_from b s = "" -> s = "".
Proof.
  destruct s as [|c s]; [reflexivity|].
  simpl. intros ->. discriminate.
Qed.

(** Collapsing keeps the characters that are not white space, leaves the
    space as the only white-space character, and leaves no run. *)
Lemma collapse_from_ink (b : bool) (s : string) :
  ink (collapse_from b s) = ink s.
Proof.
  revert b. induction s as [|c s IH]; intros b; [reflexivity|].
  simpl. destruct (py_isspace c) eqn:Hc.
  - destruct b; [apply IH | simpl; apply IH].
  - simpl. rewrite Hc. f_equal. apply IH.
Qed.

Lemma collapse_from_only_spaces (b : bool) (s : string) (c : ascii) :
  In c (list_ascii_of_string (collapse_from b s)) ->
  py_isspace c = true -> c = " "%char.
Proof.
  revert b. induction s as [|d s IH]; intros b; [intros []|].
  simpl. destruct (py_isspace d) eqn:Hd.
  - destruct b; [apply IH|]. simpl. intros [<- | Hin]; [reflexivity | eauto].
  - simpl. intros [<- | Hin]; [congruence | eauto].
Qed.

Lemma collapse_after_space (s : string) :
  starts_space (collapse_from true s) = false.
Proof.
  induction s as [|c s IH]; [reflexivity|].
  simpl. destruct (py_isspace c) eqn:Hc; [exact IH | simpl; exact Hc].
Qed.

Lemma collapse_from_no_run (b : bool) (s : string) :
  no_run (collapse_from b s) = true.
Proof.
  revert b. induction s as [|c s IH]; intros b; [reflexivity|].
  simpl. destruct (py_isspace c) eqn:Hc.
  - destruct b; [apply IH|]. simpl.
    rewrite collapse_after_space, IH. reflexivity.
  - simpl. now rewrite Hc, IH.
Qed.

Section PreprocessClaims.

Context {W Tok : Type}.

(** C10. [preprocess_text] returns the fixed string ["a simple image"] for an
    empty or white-space-only input, and otherwise the input stripped of its
    leading and trailing white space with every remaining run of white space
    collapsed to one space; the result is never empty, nothing is raised
    and the state is untouched.  The stripped string is the input without a
    white-space prefix and a white-space suffix, and neither starts nor ends
    with white space. *)
Theorem preprocess_text_normalizes
    (self : TextProcessor Tok) (text : string) (w : W) :
  preprocess_text self text w =
    (Ok (if all_space text then "a simple image"
         else collapse_whitespace (strip text)), w) /\
  (exists r, preprocess_text self text w = (Ok r, w) /\ r <> "") /\
  (exists lead trail,
      text = lead +:+ strip text +:+ trail /\
      all_space lead = true /\ all_space trail = true /\
      starts_space (strip text) = false /\ ends_space (strip text) = false).
Proof.
  destruct (strip_decompose text) as (lead & trail & Htext & Hl & Ht & Hs & He).
  assert (Hres : preprocess_text self text w =
    (Ok (if all_space text then "a simple image"
         else collapse_whitespace (strip text)), w)).
  { unfold preprocess_text, ret. rewrite (join_split_collapse _ Hs He).
    destruct (all_space text) eqn:Hall.
    - apply strip_empty in Hall. now rewrite Hall.
    - destruct (collapse_whitespace (strip text)) eqn:Hc; [|reflexivity].
      apply (collapse_from_empty _ _ Hs) in Hc.
      apply strip_empty in Hc. congruence. }
  split; [exact Hres|]. split.
  - eexists. split; [exact Hres|].
    destruct (all_space text) eqn:Hall; [discriminate|].
    intros Hc. apply (collapse_from_empty _ _ Hs) in Hc.
    apply strip_empty in Hc. congruence.
  - exists lead, trail. repeat split; assumption.
Qed.

End PreprocessClaims.

(** ** Instances at concrete inputs *)

Lemma enhance_prompt_recognized_witness :
  In "artistic" recognized_styles /\
  exists suffix,
    enhancements !! "artistic" = Some suffix /\
    enhance_prompt "a red barn" "artistic" tt
      = (Ok ("a red barn" +:+ ", " +:+ suffix), tt).
Proof.
  assert (Hin : In "artistic" recognized_styles) by (simpl; tauto).
  split; [exact Hin|].
  destruct (enhance_prompt_recognized "a red barn" "artistic" tt Hin)
    as [(suffix & Hs & Hr & _) _].
  exists suffix. split; assumption.
Defined.

Lemma enhance_prompt_unknown_style_witness :
  ~ In "bogus" recognized_styles /\
  enhance_prompt "a cute dog" "bogus" tt = enhance_prompt "a cute dog" "realistic" tt.
Proof.
  assert (Hnot : ~ In "bogus" recognized_styles).
  { simpl. intros [H | [H | [H | [H | []]]]]; discriminate H. }
  split; [exact Hnot|].
  exact (enhance_prompt_unknown_style "a cute dog" "bogus" tt Hnot).
Defined.

Lemma create_negative_prompt_recognized_witness :
  In "landscape" recognized_categories /\
  exists entry,
    negative_prompts !! "landscape" = Some entry /\
    create_negative_prompt "landscape" tt = (Ok entry, tt).
Proof.
  assert (Hin : In "landscape" recognized_categories) by (simpl; tauto).
  split; [exact Hin|].
  exact (proj1 (create_negative_prompt_recognized "landscape" tt Hin)).
Defined.

Lemma create_negative_prompt_unknown_witness :
  ~ In "unknown-category" recognized_categories /\
  create_negative_prompt "unknown-category" tt = create_negative_prompt "general" tt.
Proof.
  assert (Hnot : ~ In "unknown-category" recognized_categories).
  { simpl. intros [H | [H | [H | [H | []]]]]; discriminate H. }
  split; [exact Hnot|].
  exact (proj1 (create_negative_prompt_unknown "unknown-category" tt Hnot)).
Defined.

(** * Further properties of the module *)

(** ** Strings in normal form *)

Lemma lstrip_id (s : string) : starts_space s = false -> lstrip s = s.
Proof. destruct s as [|c s]; [reflexivity|]. simpl. now intros ->. Qed.

Lemma rstrip_id (s : string) : ends_space s = false -> rstrip s = s.
Proof.
  induction s as [|c s IH]; [reflexivity|]. intros Hend.
  pose proof (ends_space_tail c s Hend) as Hs.
  simpl. rewrite (IH Hs). destruct s as [|d s]; [|reflexivity].
  simpl in Hend. now rewrite Hend.
Qed.

Lemma tidy_starts (s : string) :
  tidy true s = true -> starts_space s = false /\ s <> "".
Proof.
  destruct s as [|c s]; [discriminate|]. simpl.
  destruct (py_isspace c); [rewrite andb_false_r; discriminate|].
  now split.
Qed.

Lemma tidy_ends (b : bool) (s : string) :
  tidy b s = true -> ends_space s = false.
Proof.
  revert b. induction s as [|c s IH]; intros b; [reflexivity|].
  simpl. destruct (py_isspace c) eqn:Hc.
  - intros [_ Ht]%andb_true_iff.
    destruct s as [|d s]; [discriminate Ht | exact (IH _ Ht)].
  - intros Ht. destruct s as [|d s]; [reflexivity | exact (IH _ Ht)].
Qed.

Lemma tidy_weaken (s : string) : tidy true s = true -> tidy false s = true.
Proof.
  destruct s as [|c s]; [discriminate|]. simpl.
  destruct (py_isspace c); [rewrite andb_false_r; discriminate | trivial].
Qed.

Lemma tidy_collapse (b : bool) (s : string) :
  tidy b s = true -> collapse_from b s = s.
Proof.
  revert b. induction s as [|c s IH]; intros b; [reflexivity|].
  simpl. destruct (py_isspace c) eqn:Hc.
  - intros [[Hsp Hb]%andb_true_iff Ht]%andb_true_iff.
    apply negb_true_iff in Hb. subst b.
    apply Ascii.eqb_eq in Hsp. subst c. now rewrite (IH _ Ht).
  - intros Ht. now rewrite (IH _ Ht).
Qed.

Lemma tidy_append (b : bool) (s rest : string) :
  tidy b s = true -> tidy false rest = true -> tidy b (s +:+ rest) = true.
Proof.
  revert b. induction s as [|c s IH]; intros b.
  - simpl. intros ->%negb_true_iff. trivial.
  - rewrite append_cons. simpl. destruct (py_isspace c).
    + intros [Hc Ht]%andb_true_iff Hrest. rewrite Hc. simpl. now apply IH.
    + intros Ht Hrest. now apply IH.
Qed.

(** Collapsing a string without trailing white space gives a tidy string. *)
Lemma collapse_tidy (s : string) :
  ends_space s = false ->
  (s <> "" -> tidy true (collapse_from true s) = true) /\
  tidy false (collapse_from false s) = true.
Proof.
  induction s as [|c s IH]; intros Hend; [now split|].
  pose proof (ends_space_tail c s Hend) as Hs.
  destruct (IH Hs) as [IHrun IHword]. clear IH.
  simpl. destruct (py_isspace c) eqn:Hc.
  - assert (Hne : s <> "").
    { intros ->. simpl in Hend. congruence. }
    split; [intros _; now apply IHrun|].
    simpl. now apply IHrun.
  - simpl. rewrite Hc. now split.
Qed.

Section Normalisation.

Context {W Tok : Type}.

(** What [preprocess_text] computes, in terms of the collapsed string. *)
Lemma preprocess_text_eq (self : TextProcessor Tok) (text : string) (w : W) :
  preprocess_text self text w =
    (Ok (if py_not (collapse_whitespace (strip text)) then "a simple image"
         else collapse_whitespace (strip text)), w).
Proof.
  destruct (strip_decompose text) as (lead & trail & _ & _ & _ & Hs & He).
  unfold preprocess_text, ret. now rewrite (join_split_collapse _ Hs He).
Qed.

Lemma preprocess_text_tidy (self : TextProcessor Tok) (text : string) (w : W) :
  exists r, preprocess_text self text w = (Ok r, w) /\ normalized r = true.
Proof.
  rewrite preprocess_text_eq. eexists. split; [reflexivity|].
  destruct (strip_decompose text) as (lead & trail & _ & _ & _ & Hs & He).
  unfold collapse_whitespace, normalized.
  destruct (strip text) as [|c s]; [reflexivity|].
  simpl in Hs. simpl. rewrite Hs. simpl. rewrite Hs.
  apply collapse_tidy. exact (ends_space_tail c s He).
Qed.

Lemma preprocess_text_fixed (self : TextProcessor Tok) (text : string) (w : W) :
  normalized text = true -> preprocess_text self text w = (Ok text, w).
Proof.
  unfold normalized. intros Ht.
  destruct (tidy_starts text Ht) as [Hs Hne].
  pose proof (tidy_ends _ _ Ht) as He.
  rewrite preprocess_text_eq. unfold strip.
  rewrite (lstrip_id _ Hs), (rstrip_id _ He). unfold collapse_whitespace.
  rewrite (tidy_collapse _ _ (tidy_weaken _ Ht)).
  destruct text; [contradiction | reflexivity].
Qed.

(** X1. [preprocess_text] is idempotent: preprocessing its own result
    changes nothing. *)
Theorem preprocess_text_idempotent
    (self : TextProcessor Tok) (text : string) (w : W) :
  (call r <- preprocess_text self text; preprocess_text self r) w
  = preprocess_text self text w.
Proof.
  destruct (preprocess_text_tidy self text w) as (r & Hr & Ht).
  unfold bind. rewrite Hr. now apply preprocess_text_fixed.
Qed.

End Normalisation.

(** ** Words *)

Lemma split_from_lstrip (s : string) :
  split_from false (lstrip s) = split_from false s.
Proof.
  induction s as [|c s IH]; [reflexivity|].
  simpl. destruct (py_isspace c) eqn:Hc; [exact IH|].
  simpl. now rewrite Hc.
Qed.

Lemma rstrip_cons (c : ascii) (s : string) :
  rstrip (String c s) =
    if py_not (rstrip s)
    then if py_isspace c then "" else String c ""
    else String c (rstrip s).
Proof. simpl. destruct (rstrip s); reflexivity. Qed.

Lemma scan_rstrip (s : string) :
  take_word (rstrip s) = take_word s /\
  forall b, split_from b (rstrip s) = split_from b s.
Proof.
  induction s as [|c s [IHword IHsplit]]; [now split|].
  rewrite rstrip_cons. destruct (py_not (rstrip s)) eqn:Hr.
  - destruct (rstrip s); [|discriminate]. simpl in IHword.
    pose proof (IHsplit true) as Ht. pose proof (IHsplit false) as Hf.
    simpl in Ht, Hf.
    destruct (py_isspace c) eqn:Hc; simpl; rewrite Hc.
    + split; [reflexivity|]. intros b. exact Hf.
    + rewrite <- IHword, <- Ht. split; [reflexivity|]. now intros [].
  - simpl. rewrite IHword, !IHsplit. now split.
Qed.

(** [split] does not see leading or trailing white space. *)
Lemma split_strip (s : string) : split (strip s) = split s.
Proof.
  unfold split, strip.
  rewrite (proj2 (scan_rstrip (lstrip s))). apply split_from_lstrip.
Qed.

Lemma take_word_spaceless (s : string) : spaceless (take_word s) = true.
Proof.
  induction s as [|c s IH]; [reflexivity|].
  simpl. destruct (py_isspace c) eqn:Hc; [reflexivity|].
  simpl. now rewrite Hc.
Qed.

Lemma split_from_words (b : bool) (s : string) :
  Forall (fun word => is_word word = true) (split_from b s).
Proof.
  revert b. induction s as [|c s IH]; intros b; [constructor|].
  simpl. destruct (py_isspace c) eqn:Hc; [apply IH|].
  destruct b; [apply IH|]. constructor; [|apply IH].
  unfold is_word. simpl. now rewrite Hc, take_word_spaceless.
Qed.

Lemma take_word_append (word rest : string) :
  spaceless word = true -> take_word rest = "" ->
  take_word (word +:+ rest) = word.
Proof.
  induction word as [|c word IH]; [now intros _|].
  rewrite append_cons. simpl.
  intros [Hc Hw]%andb_true_iff Hrest. apply negb_true_iff in Hc.
  rewrite Hc. f_equal. now apply IH.
Qed.

Lemma split_from_append (word rest : string) :
  spaceless word = true ->
  split_from true (word +:+ rest) = split_from true rest.
Proof.
  induction word as [|c word IH]; [now intros _|].
  rewrite append_cons. simpl.
  intros [Hc Hw]%andb_true_iff. apply negb_true_iff in Hc.
  rewrite Hc. now apply IH.
Qed.

Lemma take_word_tail_words (ws : list string) : take_word (tail_words ws) = "".
Proof. destruct ws; reflexivity. Qed.

Lemma split_from_tail_words (ws : list string) :
  split_from true (tail_words ws) =
    match ws with [] => [] | _ :: _ => split_from false (join " " ws) end.
Proof. destruct ws; reflexivity. Qed.

(** Splitting the words joined by single spaces gives the words back. *)
Lemma split_join (ws : list string) :
  Forall (fun word => is_word word = true) ws -> split (join " " ws) = ws.
Proof.
  unfold split. induction 1 as [|word ws Hword Hws IH]; [reflexivity|].
  rewrite join_cons. unfold is_word in Hword.
  apply andb_true_iff in Hword as [Hne Hsp].
  destruct word as [|c word]; [discriminate|].
  simpl in Hsp. apply andb_true_iff in Hsp as [Hc Hw].
  apply negb_true_iff in Hc.
  rewrite append_cons. simpl. rewrite Hc.
  rewrite (take_word_append _ _ Hw (take_word_tail_words ws)).
  rewrite (split_from_append _ _ Hw), split_from_tail_words.
  f_equal. destruct ws; [reflexivity | exact IH].
Qed.

Section Layout.

Context {W Tok : Type}.

(** X2. The result of [preprocess_text] depends on the sequence of words of
    the text only: two texts with the same words, whatever white space
    separates or surrounds them, are preprocessed to the same string. *)
Theorem preprocess_text_layout
    (self : TextProcessor Tok) (a b : string) (w : W) :
  split a = split b ->
  preprocess_text self a w = preprocess_text self b w.
Proof.
  intros Hab. unfold preprocess_text. now rewrite !split_strip, Hab.
Qed.

(** X3. [preprocess_text] keeps the words of a text that has any: splitting
    the result gives the words of the input, in order.  A blank text gets
    the three words of the placeholder. *)
Theorem preprocess_text_words
    (self : TextProcessor Tok) (text : string) (w : W) :
  exists r,
    preprocess_text self text w = (Ok r, w) /\
    split r = if all_space text then ["a"; "simple"; "image"] else split text.
Proof.
  destruct (strip_decompose text) as (lead & trail & _ & _ & _ & Hs & He).
  unfold preprocess_text, ret. eexists. split; [reflexivity|].
  destruct (all_space text) eqn:Hall.
  - apply strip_empty in Hall. now rewrite Hall.
  - destruct (join " " (split (strip text))) eqn:Hj.
    + rewrite (join_split_collapse _ Hs He) in Hj.
      apply (collapse_from_empty _ _ Hs) in Hj.
      apply strip_empty in Hj. congruence.
    + simpl py_not. cbv iota. rewrite <- Hj.
      rewrite split_join by apply split_from_words. apply split_strip.
Qed.

End Layout.

Lemma preprocess_text_layout_witness :
  split "  a   red barn " = split "a red barn" /\
  preprocess_text (W:=unit) {| model_name := "clip"; tokenizer := @None unit |}
      "  a   red barn " tt
  = preprocess_text {| model_name := "clip"; tokenizer := @None unit |}
      "a red barn" tt.
Proof.
  assert (H : split "  a   red barn " = split "a red barn") by reflexivity.
  split; [exact H|].
  exact (preprocess_text_layout _ _ _ tt H).
Defined.

(** ** Tokenizing *)

Lemma enhancement_normalized (style : string) :
  normalized
    (dict_get enhancements style
       "photorealistic, high quality, detailed, 8k resolution") = true.
Proof.
  destruct (enhancement_cases style) as [<- | [<- | [<- | [<- | []]]]];
    reflexivity.
Qed.

Lemma enhance_prompt_normalized {W : Type} (r style : string) (w : W) :
  normalized r = true ->
  exists e, enhance_prompt r style w = (Ok e, w) /\ normalized e = true.
Proof.
  intros Hr. rewrite enhance_prompt_eq. eexists. split; [reflexivity|].
  apply tidy_append; [exact Hr|].
  pose proof (enhancement_normalized style) as Hs.
  set (suffix := dict_get enhancements style _) in *.
  change (", " +:+ suffix) with (String "," (String " " suffix)).
  exact Hs.
Qed.

Section Tokenizing.

Context {W Tok Enc Ids : Type}.

Variable tokenizer_call :
  option Tok -> text_arg -> PyVal -> PyVal -> PyVal -> string -> Py W Enc.
Variable encoding_getitem : Enc -> string -> Py W Ids.

Lemma map_py_preprocess (self : TextProcessor Tok) (l : list string) (w : W) :
  exists rs,
    map_py (preprocess_text self) l w = (Ok rs, w) /\
    Forall2 (fun text r => preprocess_text self text w = (Ok r, w)) l rs /\
    Forall (fun r => normalized r = true) rs.
Proof.
  induction l as [|text l (rs & Hrs & Hall & Hnorm)].
  - exists []. repeat split; constructor.
  - destruct (preprocess_text_tidy self text w) as (r & Hr & Ht).
    exists (r :: rs). simpl. unfold bind. rewrite Hr, Hrs.
    repeat split; constructor; assumption.
Qed.

Lemma tokenize_text_str (self : TextProcessor Tok) (s r rt : string) (w : W) :
  preprocess_text self s w = (Ok r, w) ->
  tokenize_text tokenizer_call self (TextStr s) rt w =
    tokenizer_call (tokenizer Tok self) (TextStr r)
      (VInt 77) (VStr "max_length") (VBool true) rt w.
Proof. intros Hr. unfold tokenize_text, bind. now rewrite Hr. Qed.

(** X4. Whatever [tokenize_text] is given, the tokenizer is called with
    [max_length] 77, padding to the maximal length and truncation, on
    preprocessed text: for one prompt its normalized, non-empty form; for a
    list one such prompt per element, in the same order. *)
Theorem tokenize_text_receives
    (self : TextProcessor Tok) (text : text_arg) (rt : string) (w : W) :
  exists text',
    tokenize_text tokenizer_call self text rt w =
      tokenizer_call (tokenizer Tok self) text'
        (VInt 77) (VStr "max_length") (VBool true) rt w /\
    match text, text' with
    | TextStr s, TextStr r =>
        preprocess_text self s w = (Ok r, w) /\ normalized r = true
    | TextList l, TextList rs =>
        length rs = length l /\
        Forall2 (fun s r => preprocess_text self s w = (Ok r, w)) l rs /\
        Forall (fun r => normalized r = true) rs
    | _, _ => False
    end.
Proof.
  destruct text as [s | l].
  - destruct (preprocess_text_tidy self s w) as (r & Hr & Ht).
    exists (TextStr r). split; [now apply tokenize_text_str | now split].
  - destruct (map_py_preprocess self l w) as (rs & Hrs & Hall & Hnorm).
    exists (TextList rs). split.
    + unfold tokenize_text, bind. now rewrite Hrs.
    + split; [symmetry; exact (Forall2_length _ _ _ Hall) | now split].
Qed.

(** X5. The pipeline of the module's [main]: a prompt is preprocessed,
    enhanced and tokenized.  The enhanced prompt is already in normal form,
    so the preprocessing inside [tokenize_text] changes nothing and the
    tokenizer receives exactly the enhanced prompt. *)
Theorem main_pipeline_tokenizes_enhanced
    (self : TextProcessor Tok) (prompt style rt : string) (w : W) :
  (call r <- preprocess_text self prompt;
   call e <- enhance_prompt r style;
   tokenize_text tokenizer_call self (TextStr e) rt) w
  = (call r <- preprocess_text self prompt;
     call e <- enhance_prompt r style;
     tokenizer_call (tokenizer Tok self) (TextStr e)
       (VInt 77) (VStr "max_length") (VBool true) rt) w.
Proof.
  destruct (preprocess_text_tidy self prompt w) as (r & Hr & Ht).
  destruct (enhance_prompt_normalized r style w Ht) as (e & He & Hn).
  unfold bind. rewrite Hr, He.
  apply tokenize_text_str. now apply preprocess_text_fixed.
Qed.

(** X6. [encode_prompt] does not depend on the white-space layout of the
    prompt: two prompts with the same words are encoded by the same call of
    the tokenizer, hence to the same outcome. *)
Theorem encode_prompt_layout
    (self : TextProcessor Tok) (a b : string) (w : W) :
  split a = split b ->
  encode_prompt tokenizer_call encoding_getitem self a w
  = encode_prompt tokenizer_call encoding_getitem self b w.
Proof.
  intros Hab. unfold encode_prompt, tokenize_text, bind.
  unfold preprocess_text. now rewrite !split_strip, Hab.
Qed.

End Tokenizing.

Lemma encode_prompt_layout_witness :
  split "dog   on a  beach  " = split " dog on a beach" /\
  encode_prompt (W:=unit) (Tok:=unit) (Enc:=text_arg) (Ids:=text_arg)
      (fun _ text _ _ _ _ => ret text)
      (fun enc _ => ret enc)
      {| model_name := "clip"; tokenizer := None |} "dog   on a  beach  " tt
  = encode_prompt (W:=unit) (Tok:=unit) (Enc:=text_arg) (Ids:=text_arg)
      (fun _ text _ _ _ _ => ret text)
      (fun enc _ => ret enc)
      {| model_name := "clip"; tokenizer := None |} " dog on a beach" tt.
Proof.
  assert (H : split "dog   on a  beach  " = split " dog on a beach")
    by reflexivity.
  split; [exact H|].
  exact (encode_prompt_layout _ _ _ _ _ tt H).
Defined.

(** ** Prompt variations *)

Lemma fold_left_snoc_map {A B : Type} (f : A -> B) (l : list A) (acc : list B) :
  fold_left (fun acc a => acc ++ [f a]) l acc = acc ++ map f l.
Proof.
  revert acc. induction l as [|a l IH]; intros acc; simpl.
  - now rewrite app_nil_r.
  - now rewrite IH, <- app_assoc.
Qed.

Section VariationClaims.

Context {W Tok : Type}.

(** X7. [create_prompt_variations] returns the base prompt followed by one
    string per variation, in order, each being the base prompt, [", "] and
    the variation.  So the list has one element more than [variations], and
    every element starts with the base prompt.  An explicit empty list of
    variations gives the base prompt alone; the five defaults are used only
    when the argument is [None]. *)
Theorem create_prompt_variations_shape
    (self : TextProcessor Tok) (base_prompt : string)
    (variations : list string) (w : W) :
  exists r,
    create_prompt_variations self base_prompt (Some variations) w = (Ok r, w) /\
    r = base_prompt
          :: map (fun variation => base_prompt +:+ ", " +:+ variation) variations /\
    length r = S (length variations) /\
    Forall (starts_with base_prompt) r /\
    create_prompt_variations self base_prompt (Some []) w
      = (Ok [base_prompt], w) /\
    create_prompt_variations self base_prompt None w
      = create_prompt_variations self base_prompt
          (Some [ "high quality, detailed";
                  "photorealistic, 8k resolution";
                  "artistic, beautiful";
                  "professional photography";
                  "masterpiece, best quality" ]) w.
Proof.
  eexists. split; [reflexivity|]. rewrite fold_left_snoc_map.
  split; [reflexivity|]. split; [|split; [|split; reflexivity]].
  - simpl. now rewrite length_map.
  - simpl. constructor.
    + exists "". now rewrite append_empty_r.
    + apply List.Forall_forall. intros x [v [<- _]]%in_map_iff.
      now exists (", " +:+ v).
Qed.

End VariationClaims.

(** ** Keywords *)

Lemma py_isspace_lower (c : ascii) :
  py_isspace (py_lower_char c) = py_isspace c.
Proof. destruct c as [[] [] [] [] [] [] [] []]; reflexivity. Qed.

Lemma py_lower_char_idem (c : ascii) :
  py_lower_char (py_lower_char c) = py_lower_char c.
Proof. destruct c as [[] [] [] [] [] [] [] []]; reflexivity. Qed.

Lemma lower_idem (s : string) : lower (lower s) = lower s.
Proof.
  induction s as [|c s IH]; [reflexivity|].
  simpl. now rewrite py_lower_char_idem, IH.
Qed.

Lemma spaceless_lower (s : string) : spaceless (lower s) = spaceless s.
Proof.
  induction s as [|c s IH]; [reflexivity|].
  simpl. now rewrite py_isspace_lower, IH.
Qed.

Lemma is_word_lower (s : string) : is_word (lower s) = is_word s.
Proof. unfold is_word. rewrite spaceless_lower. now destruct s. Qed.

Lemma take_word_lower (s : string) : take_word (lower s) = lower (take_word s).
Proof.
  induction s as [|c s IH]; [reflexivity|].
  simpl. rewrite py_isspace_lower.
  destruct (py_isspace c); [reflexivity|]. simpl. now rewrite IH.
Qed.

Lemma split_from_lower (b : bool) (s : string) :
  split_from b (lower s) = map lower (split_from b s).
Proof.
  revert b. induction s as [|c s IH]; intros b; [reflexivity|].
  simpl. rewrite py_isspace_lower.
  destruct (py_isspace c); [apply IH|].
  destruct b; [apply IH|]. simpl. now rewrite take_word_lower, IH.
Qed.

(** Lower-casing and splitting commute. *)
Lemma split_lower (s : string) : split (lower s) = map lower (split s).
Proof. apply split_from_lower. Qed.

Lemma split_blank (s : string) : all_space s = true -> split s = [].
Proof.
  unfold split. induction s as [|c s IH]; [reflexivity|].
  simpl. intros [Hc Hs]%andb_true_iff. rewrite Hc. now apply IH.
Qed.

Lemma list_of_set_exists (l : list string) : exists r, list_of_set l r.
Proof.
  exists (remove_dups l). split.
  - apply NoDup_remove_dups.
  - intros x. apply elem_of_remove_dups.
Qed.

Lemma list_of_set_length (l r : list string) :
  list_of_set l r -> length r <= length l.
Proof.
  intros [Hnd Hel]. apply submseteq_length, NoDup_submseteq; [exact Hnd|].
  intros x. apply Hel.
Qed.

Section Keywords.

Context {Tok : Type}.

(** [extract_keywords] has a result for every text. *)
Lemma extract_keywords_exists (self : TextProcessor Tok) (text : string) :
  exists r, extract_keywords self text r.
Proof. apply list_of_set_exists. Qed.

(** X8. The keywords of a text are exactly the lower-case forms of its
    words that, in lower case, are longer than two characters and not among
    the common words: the length that counts is the one of the lower-case
    form, as in the code.  Each keyword occurs once, is unchanged by
    [lower] and contains no white space. *)
Theorem extract_keywords_spec
    (self : TextProcessor Tok) (text : string) (r : list string) :
  extract_keywords self text r ->
  NoDup r /\
  (forall k, k ∈ r <->
     exists word, word ∈ split text /\ k = lower word /\
                  2 < String.length (lower word) /\
                  lower word ∉ common_words) /\
  (forall k, k ∈ r -> lower k = k /\ is_word k = true).
Proof.
  intros [Hnd Hel]. split; [exact Hnd|].
  assert (Hchar : forall k, k ∈ r <->
     exists word, word ∈ split text /\ k = lower word /\
                  2 < String.length (lower word) /\
                  lower word ∉ common_words).
  { intros k. rewrite Hel. unfold keywords_of.
    rewrite list_elem_of_filter, split_lower, list_elem_of_In, in_map_iff.
    split.
    - intros [[Hc Hl] (word & <- & Hin)]. exists word.
      now rewrite list_elem_of_In.
    - intros (word & Hin & -> & Hl & Hc).
      split; [now split|]. exists word. now rewrite <- list_elem_of_In. }
  split; [exact Hchar|].
  intros k (word & Hin & -> & _)%Hchar. split; [apply lower_idem|].
  rewrite is_word_lower.
  pose proof (split_from_words false text) as Hw.
  rewrite List.Forall_forall in Hw. apply Hw. now apply list_elem_of_In.
Qed.

(** X9. [extract_keywords] sees neither letter case nor white-space layout:
    two texts whose words agree up to case have the same keyword lists. *)
Theorem extract_keywords_insensitive
    (self : TextProcessor Tok) (a b : string) (r : list string) :
  map lower (split a) = map lower (split b) ->
  extract_keywords self a r <-> extract_keywords self b r.
Proof.
  intros Hab. unfold extract_keywords, keywords_of.
  now rewrite !split_lower, Hab.
Qed.

(** X10. There are at most as many keywords as the text has words, and a
    blank text has none. *)
Theorem extract_keywords_bound
    (self : TextProcessor Tok) (text : string) (r : list string) :
  extract_keywords self text r ->
  length r <= length (split text) /\
  (all_space text = true -> r = []).
Proof.
  intros Hr.
  assert (Hlen : length r <= length (split text)).
  { etransitivity; [exact (list_of_set_length _ _ Hr)|].
    unfold keywords_of. etransitivity; [apply length_filter|].
    now rewrite split_lower, length_map. }
  split; [exact Hlen|].
  intros Hall. rewrite (split_blank _ Hall) in Hlen.
  destruct r; [reflexivity | simpl in Hlen; lia].
Qed.

End Keywords.

Lemma extract_keywords_example :
  extract_keywords {| model_name := "clip"; tokenizer := @None unit |}
    "The Dog and the dog" ["dog"].
Proof.
  split.
  - apply NoDup_singleton.
  - intros x. vm_compute keywords_of. rewrite !list_elem_of_In. simpl. tauto.
Defined.

Lemma extract_keywords_spec_witness :
  extract_keywords {| model_name := "clip"; tokenizer := @None unit |}
    "The Dog and the dog" ["dog"] /\
  NoDup ["dog"] /\
  (forall k, k ∈ ["dog"] -> lower k = k /\ is_word k = true).
Proof.
  split; [exact extract_keywords_example|].
  destruct (extract_keywords_spec _ _ _ extract_keywords_example)
    as (Hnd & _ & Hlow).
  split; assumption.
Defined.

Lemma extract_keywords_insensitive_witness :
  map lower (split "A Big DOG") = map lower (split " a  big dog ") /\
  (extract_keywords {| model_name := "clip"; tokenizer := @None unit |}
     "A Big DOG" ["big"; "dog"]
   <-> extract_keywords {| model_name := "clip"; tokenizer := @None unit |}
     " a  big dog " ["big"; "dog"]).
Proof.
  assert (H : map lower (split "A Big DOG") = map lower (split " a  big dog "))
    by reflexivity.
  split; [exact H|].
  exact (extract_keywords_insensitive _ _ _ _ H).
Defined.

Lemma extract_keywords_bound_witness :
  extract_keywords {| model_name := "clip"; tokenizer := @None unit |}
    "The Dog and the dog" ["dog"] /\
  length ["dog"] <= length (split "The Dog and the dog").
Proof.
  split; [exact extract_keywords_example|].
  exact (proj1 (extract_keywords_bound _ _ _ extract_keywords_example)).
Defined.

(** ** Wrapping words into lines *)

Lemma py_truth_append (a b : string) :
  py_truth a = true -> py_truth (a +:+ b) = true.
Proof. destruct a; [discriminate | reflexivity]. Qed.

Lemma py_truth_append_r (a b : string) :
  py_truth b = true -> py_truth (a +:+ b) = true.
Proof. destruct a; [trivial | reflexivity]. Qed.

Lemma join_truth (a : string) (l : list string) :
  py_truth a = true -> py_truth (join " " (a :: l)) = true.
Proof. intros Ha. rewrite join_cons. now apply py_truth_append. Qed.

Lemma join_snoc (l : list string) (x : string) :
  Forall (fun line => py_truth line = true) l ->
  join " " (l ++ [x]) =
    if py_truth (join " " l) then join " " l +:+ " " +:+ x else x.
Proof.
  induction 1 as [|a l Ha Hl IH]; [reflexivity|].
  rewrite (join_truth a l Ha).
  change ((a :: l) ++ [x]) with (a :: (l ++ [x])).
  rewrite !join_cons, append_assoc. f_equal.
  destruct l as [|b l]; [reflexivity|].
  change (tail_words ((b :: l) ++ [x])) with (" " +:+ join " " ((b :: l) ++ [x])).
  rewrite IH. inversion Hl as [|? ? Hb _]; subst.
  rewrite (join_truth b l Hb).
  change (tail_words (b :: l)) with (" " +:+ join " " (b :: l)).
  now rewrite append_assoc.
Qed.

Section Wrapping.

Variables char_width max_width : nat.

Lemma wrap_step_invariant (all seen : list string)
    (state : list string * string) (word : string) :
  wrap_invariant char_width max_width all seen state ->
  py_truth word = true -> In word all ->
  wrap_invariant char_width max_width all (seen ++ [word])
    (wrap_step char_width max_width state word).
Proof.
  destruct state as [lines current_line].
  intros (Htruth & Hjoin & Hlen & Hfit & Hseen) Hword Hin.
  assert (Hseen' : Forall (fun word => py_truth word = true) (seen ++ [word])).
  { apply Forall_app. split; [exact Hseen | now constructor]. }
  unfold wrap_step.
  set (test_line :=
         current_line +:+ (if py_truth current_line then " " else "") +:+ word).
  assert (Htest : py_truth test_line = true).
  { unfold test_line. now do 2 apply py_truth_append_r. }
  destruct (String.length test_line * char_width <? max_width)%nat eqn:Hlt.
  - apply Nat.ltb_lt in Hlt. unfold wrap_invariant, wrap_flush.
    rewrite Htest. unfold wrap_flush in Htruth, Hjoin, Hlen, Hfit.
    assert (Hlines : Forall (fun line => py_truth line = true) lines /\
                     length lines <= length seen /\
                     Forall (fun line =>
                       String.length line * char_width < max_width
                       \/ In line all) lines).
    { destruct (py_truth current_line).
      - apply Forall_app in Htruth as [Htruth _].
        apply Forall_app in Hfit as [Hfit _].
        rewrite length_app in Hlen. simpl in Hlen. repeat split; try assumption. lia.
      - now repeat split. }
    destruct Hlines as (Hl1 & Hl2 & Hl3).
    split; [apply Forall_app; split; [exact Hl1 | now constructor]|].
    split.
    + rewrite (join_snoc lines _ Hl1), (join_snoc seen _ Hseen), <- Hjoin.
      unfold test_line. destruct current_line as [|c rest].
      * reflexivity.
      * change (py_truth (String c rest)) with true. cbv iota.
        rewrite (join_snoc lines _ Hl1).
        destruct (py_truth (join " " lines)) eqn:Hj.
        -- rewrite py_truth_append by exact Hj. now rewrite ?append_assoc.
        -- change (py_truth (String c rest)) with true. cbv iota.
           now rewrite ?append_assoc.
    + split; [rewrite !length_app; simpl; lia|].
      split; [|exact Hseen'].
      apply Forall_app. split; [exact Hl3|]. constructor; [now left | constructor].
  - change (if py_truth current_line then lines ++ [current_line] else lines)
      with (wrap_flush (lines, current_line)).
    set (flushed := wrap_flush (lines, current_line)) in *.
    unfold wrap_invariant. unfold wrap_flush at 1 2 3 4. rewrite Hword.
    split; [apply Forall_app; split; [exact Htruth | now constructor]|].
    split; [now rewrite (join_snoc _ _ Htruth), (join_snoc _ _ Hseen), Hjoin|].
    split; [rewrite !length_app; simpl; lia|].
    split; [|exact Hseen'].
    apply Forall_app. split; [exact Hfit|]. constructor; [now right | constructor].
Qed.

Lemma wrap_loop_invariant (all words seen : list string)
    (state : list string * string) :
  wrap_invariant char_width max_width all seen state ->
  Forall (fun word => py_truth word = true) words ->
  (forall word, In word words -> In word all) ->
  wrap_invariant char_width max_width all (seen ++ words)
    (fold_left (wrap_step char_width max_width) words state).
Proof.
  revert seen state. induction words as [|word words IH];
    intros seen state Hinv Hwords Hall.
  - now rewrite app_nil_r.
  - inversion Hwords as [|? ? Hword Hrest]; subst. simpl.
    replace (seen ++ word :: words) with ((seen ++ [word]) ++ words)
      by now rewrite <- app_assoc.
    apply IH; [|exact Hrest | intros v Hv; apply Hall; now right].
    apply wrap_step_invariant; [exact Hinv | exact Hword | apply Hall; now left].
Qed.

Lemma wrap_text_invariant (text : string) :
  wrap_invariant char_width max_width (split text) (split text)
    (fold_left (wrap_step char_width max_width) (split text) ([], "")).
Proof.
  apply (wrap_loop_invariant (split text) (split text) [] ([], "")).
  - repeat split; constructor.
  - pose proof (split_from_words false text) as Hw.
    eapply Forall_impl; [exact Hw|]. intros word Hword. simpl in Hword.
    unfold is_word in Hword. apply andb_true_iff in Hword as [Hne _].
    exact Hne.
  - trivial.
Qed.

End Wrapping.

Lemma join_split_normalized (text : string) :
  normalized text = true -> join " " (split text) = text.
Proof.
  unfold normalized. intros Ht.
  destruct (tidy_starts text Ht) as [Hs _].
  rewrite (join_split_collapse _ Hs (tidy_ends _ _ Ht)).
  exact (tidy_collapse _ _ (tidy_weaken _ Ht)).
Qed.

Section WrappingClaims.

Variables char_width max_width : nat.

(** X11. Wrapping loses no word and adds nothing: the lines joined by single
    spaces are the words of the text joined by single spaces, whatever the
    width; for a text in normal form, such as a preprocessed or an enhanced
    prompt, that is the text itself. *)
Theorem wrap_text_keeps_text (text : string) :
  join " " (wrap_text char_width max_width text) = join " " (split text) /\
  (normalized text = true ->
   join " " (wrap_text char_width max_width text) = text).
Proof.
  destruct (wrap_text_invariant char_width max_width text)
    as (_ & Hjoin & _).
  split; [exact Hjoin|].
  intros Ht. unfold wrap_text, wrap_words. rewrite Hjoin.
  now apply join_split_normalized.
Qed.

(** X12. No line is empty, there are at most as many lines as words, and a
    line is wider than the limit only if it is a single word of the text
    (which the loop cannot break). *)
Theorem wrap_text_lines (text line : string) :
  In line (wrap_text char_width max_width text) ->
  line <> "" /\
  (String.length line * char_width < max_width \/ In line (split text)) /\
  length (wrap_text char_width max_width text) <= length (split text).
Proof.
  destruct (wrap_text_invariant char_width max_width text)
    as (Htruth & _ & Hlen & Hfit & _).
  intros Hin. unfold wrap_text, wrap_words in *.
  rewrite List.Forall_forall in Htruth, Hfit.
  split; [|split; [now apply Hfit | exact Hlen]].
  intros ->. specialize (Htruth _ Hin). discriminate Htruth.
Qed.

End WrappingClaims.

Lemma wrap_text_keeps_text_witness :
  normalized "a big red dog jumps over it" = true /\
  join " " (wrap_text 10 100 "a big red dog jumps over it")
  = "a big red dog jumps over it".
Proof.
  assert (H : normalized "a big red dog jumps over it" = true) by reflexivity.
  split; [exact H|].
  exact (proj2 (wrap_text_keeps_text 10 100 "a big red dog jumps over it") H).
Defined.

Lemma wrap_text_lines_witness :
  In "extraordinarily" (wrap_text 10 100 "a dog extraordinarily jumps") /\
  (String.length "extraordinarily" * 10 < 100
   \/ In "extraordinarily" (split "a dog extraordinarily jumps")).
Proof.
  assert (H : In "extraordinarily"
                (wrap_text 10 100 "a dog extraordinarily jumps")).
  { vm_compute. tauto. }
  split; [exact H|].
  exact (proj1 (proj2 (wrap_text_lines 10 100 _ _ H))).
Defined.

(** ** Enhanced prompts determine the prompt *)

Lemma length_append (a b : string) :
  String.length (a +:+ b) = String.length a + String.length b.
Proof.
  induction a as [|c a IH]; [reflexivity|].
  rewrite append_cons. simpl. now rewrite IH.
Qed.

Lemma append_cancel_r (a b c : string) : a +:+ c = b +:+ c -> a = b.
Proof.
  revert b. induction a as [|x a IH]; intros [|y b] H.
  - reflexivity.
  - apply (f_equal String.length) in H.
    rewrite append_nil, length_append in H. simpl in H. lia.
  - apply (f_equal String.length) in H.
    rewrite append_nil, length_append in H. simpl in H. lia.
  - rewrite !append_cons in H. injection H as -> H. f_equal. now apply IH.
Qed.

(** X13. For a fixed style, recognized or not, [enhance_prompt] is injective
    in the prompt: two prompts with the same enhanced prompt are equal, so
    the prompt can be recovered from the result. *)
Theorem enhance_prompt_injective {W : Type} (p1 p2 style : string) (w : W) :
  enhance_prompt p1 style w = enhance_prompt p2 style w -> p1 = p2.
Proof.
  rewrite !enhance_prompt_eq. intros H. injection H as H.
  rewrite <- !append_assoc in H.
  apply append_cancel_r in H. now apply append_cancel_r in H.
Qed.

Lemma enhance_prompt_injective_witness :
  enhance_prompt "a cat" "bogus" tt = enhance_prompt "a cat" "bogus" tt /\
  "a cat" = "a cat".
Proof.
  assert (H : enhance_prompt "a cat" "bogus" tt
              = enhance_prompt "a cat" "bogus" tt) by reflexivity.
  split; [exact H|].
  exact (enhance_prompt_injective "a cat" "a cat" "bogus" tt H).
Defined.

(** ** The texts shown on a demo image *)

Section DemoTextClaims.

Context {W : Type}.

(** X14. [generate_demo_image] never falls back to its substitute texts when
    the tokenizer module is available: the [except] branch is not taken, and
    the texts are those of [enhance_prompt] and [create_negative_prompt].
    With or without the module, the enhanced text starts with the prompt and
    [", "] and contains ["high quality"], and the negative text contains
    ["low quality"]. *)
Theorem demo_texts_sources (available : bool) (prompt style : string) (w : W) :
  exists enhanced negative,
    demo_texts available prompt style w = (Ok (enhanced, negative), w) /\
    (if available
     then enhance_prompt prompt style w = (Ok enhanced, w) /\
          create_negative_prompt "general" w = (Ok negative, w)
     else enhanced = prompt +:+ ", " +:+ style +:+ ", high quality" /\
          negative = "low quality, blurry") /\
    starts_with (prompt +:+ ", ") enhanced /\
    contains "high quality" enhanced /\
    contains "low quality" negative.
Proof.
  destruct available.
  - exists (prompt +:+ ", " +:+
            dict_get enhancements style
              "photorealistic, high quality, detailed, 8k resolution"),
      "blurry, low quality, distorted, deformed, bad anatomy, bad proportions".
    split; [reflexivity|]. split; [now split|].
    split; [|split].
    + eexists. now rewrite append_assoc.
    + apply contains_append_r, contains_append_r.
      destruct (enhancement_cases style) as [<- | [<- | [<- | [<- | []]]]].
      * exists "cinematic lighting, dramatic, ", ", film photography". reflexivity.
      * exists "professional photography, studio lighting, ", "". reflexivity.
      * exists "artistic, beautiful, masterpiece, ", "". reflexivity.
      * exists "photorealistic, ", ", detailed, 8k resolution". reflexivity.
    + exists "blurry, ", ", distorted, deformed, bad anatomy, bad proportions".
      reflexivity.
  - do 2 eexists. split; [reflexivity|]. split; [now split|].
    split; [|split].
    + eexists. now rewrite append_assoc.
    + do 3 apply contains_append_r. exists ", ", "". reflexivity.
    + exists "", ", blurry". reflexivity.
Qed.

End DemoTextClaims.
